(** * libMesh exception taxonomy and the LIBMESH_ENABLE_EXCEPTIONS switch

    A model of [include/base/libmesh_exceptions.h]: the seven exception
    classes with their constructors, the C++ class hierarchy they are
    plugged into, and the three macros [LIBMESH_THROW], [libmesh_try] and
    [libmesh_catch] in both of their expansions. *)

From Stdlib Require Import ZArith String Ascii List Bool Lia.
From Stdlib Require Import Decimal DecimalString DecimalZ.
Import ListNotations.

Local Open Scope string_scope.

(** ** Classes and the inheritance graph *)

(** The classes that take part in handler matching: the three standard
    ones the header derives from, and the seven it declares. *)
Inductive class : Type :=
| std_exception
| std_logic_error
| std_runtime_error
| LogicError
| NotImplemented
| FileError
| ConvergenceFailure
| DynamicCastFailure
| FloatingPointException
| SolverException.

Definition class_eqb (a b : class) : bool :=
  match a, b with
  | std_exception, std_exception
  | std_logic_error, std_logic_error
  | std_runtime_error, std_runtime_error
  | LogicError, LogicError
  | NotImplemented, NotImplemented
  | FileError, FileError
  | ConvergenceFailure, ConvergenceFailure
  | DynamicCastFailure, DynamicCastFailure
  | FloatingPointException, FloatingPointException
  | SolverException, SolverException => true
  | _, _ => false
  end.

(** The [: public B] clause of every class (single, public inheritance
    throughout); [std::logic_error] and [std::runtime_error] derive from
    [std::exception] in <stdexcept>. *)
Definition direct_base (c : class) : option class :=
  match c with
  | std_exception => None
  | std_logic_error => Some std_exception
  | std_runtime_error => Some std_exception
  | LogicError => Some std_logic_error
  | NotImplemented => Some std_logic_error
  | FileError => Some std_runtime_error
  | ConvergenceFailure => Some std_runtime_error
  | DynamicCastFailure => Some std_runtime_error
  | FloatingPointException => Some std_runtime_error
  | SolverException => Some std_exception
  end.

(** [derives d b]: [b] is [d] itself or one of its (transitive) bases. *)
Inductive derives : class -> class -> Prop :=
| derives_refl : forall c, derives c c
| derives_step : forall d m b,
    direct_base d = Some m -> derives m b -> derives d b.

(** The chain [c, base of c, base of base of c, ...], cut after [fuel]
    steps up. *)
Fixpoint base_chain (fuel : nat) (c : class) : list class :=
  c :: match fuel with
       | O => []
       | S fuel' =>
           match direct_base c with
           | Some b => base_chain fuel' b
           | None => []
           end
       end.

(** No class of the header is more than two steps below [std::exception]. *)
Definition hierarchy_depth : nat := 2.

Definition is_base_of (b d : class) : bool :=
  existsb (class_eqb b) (base_chain hierarchy_depth d).


(** ** Exception objects *)

(** One shape per class of the header.  The six classes derived from
    <stdexcept> own nothing but the string handed to their base-class
    constructor; [SolverException] has its two public data members. *)
Inductive exception_object : Type :=
| LogicError_obj (what_arg : string)
| NotImplemented_obj (what_arg : string)
| FileError_obj (what_arg : string)
| ConvergenceFailure_obj (what_arg : string)
| DynamicCastFailure_obj (what_arg : string)
| FloatingPointException_obj (what_arg : string)
| SolverException_obj (error_code : Z) (what_message : string).

(** The dynamic type of an object. *)
Definition class_of (e : exception_object) : class :=
  match e with
  | LogicError_obj _ => LogicError
  | NotImplemented_obj _ => NotImplemented
  | FileError_obj _ => FileError
  | ConvergenceFailure_obj _ => ConvergenceFailure
  | DynamicCastFailure_obj _ => DynamicCastFailure
  | FloatingPointException_obj _ => FloatingPointException
  | SolverException_obj _ _ => SolverException
  end.

(** The [std::string] an object holds: all of its bytes, whatever they
    are. *)
Definition message (e : exception_object) : string :=
  match e with
  | LogicError_obj w
  | NotImplemented_obj w
  | FileError_obj w
  | ConvergenceFailure_obj w
  | DynamicCastFailure_obj w
  | FloatingPointException_obj w => w
  | SolverException_obj _ m => m
  end.

(** [s.c_str()] read as the C string it is handed out as: the bytes up to
    the first NUL. *)
Fixpoint c_str (s : string) : string :=
  match s with
  | EmptyString => EmptyString
  | String a s' =>
      if Ascii.eqb a Ascii.zero then EmptyString else String a (c_str s')
  end.

Fixpoint no_nul (s : string) : bool :=
  match s with
  | EmptyString => true
  | String a s' => negb (Ascii.eqb a Ascii.zero) && no_nul s'
  end.

(** [what()] returns [const char *]: for [SolverException] the overriding
    [what()] returns [what_message.c_str()], the other classes inherit the
    accessor of <stdexcept>, which does the same with the stored string. *)
Definition what (e : exception_object) : string :=
  c_str (message e).

(** Reading the public member [error_code]; only [SolverException] has it. *)
Definition error_code (e : exception_object) : option Z :=
  match e with
  | SolverException_obj c _ => Some c
  | _ => None
  end.

(** ** Formatting an [int] on a stream *)

(** What [operator<<] takes from the locale a stream is imbued with when
    it writes an integer: the group sizes of [numpunct::grouping()],
    counted from the least significant digit, the last one repeating and a
    size of [0] standing for a group without limit, and
    [numpunct::thousands_sep()].  A default-constructed stream is imbued
    with the global locale of the moment. *)
Record locale : Type := {
  grouping : list nat;
  thousands_sep : ascii
}.

(** The locale a program starts with: no grouping. *)
Definition classic_locale : locale :=
  {| grouping := []; thousands_sep := "," |}.

(** Digits, least significant first, with the separators put in.  [size]
    is the size of the group being filled, [room] the number of digits it
    still takes, [later] the sizes of the groups after it. *)
Fixpoint group_digits (sep : ascii) (later : list nat) (size room : nat)
    (ds : list ascii) : list ascii :=
  match ds with
  | [] => []
  | d :: ds' =>
      match size with
      | O => d :: ds'
      | S _ =>
          match room with
          | S r => d :: group_digits sep later size r ds'
          | O =>
              match later with
              | [] => sep :: d :: group_digits sep [] size (size - 1) ds'
              | next :: later' =>
                  sep :: d :: group_digits sep later' next (next - 1) ds'
              end
          end
      end
  end.

Definition put_digits (loc : locale) (digits : string) : string :=
  match grouping loc with
  | [] => digits
  | size :: later =>
      string_of_list_ascii
        (List.rev (group_digits (thousands_sep loc) later size size
                     (List.rev (list_ascii_of_string digits))))
  end.

(** The [int] a [SolverException] carries is kept as the integer it
    denotes: the header does no arithmetic on it.

    [oss << error_code] on a stream imbued with [loc]: the decimal digits,
    grouped as [loc] says, after a minus sign for a negative value. *)
Definition stream_int (loc : locale) (c : Z) : string :=
  match Z.to_int c with
  | Pos u => put_digits loc (NilEmpty.string_of_uint u)
  | Neg u => String "-" (put_digits loc (NilEmpty.string_of_uint u))
  end.

(** [std::endl] appends a line feed (and flushes). *)
Definition endl : string := String (ascii_of_nat 10) EmptyString.

(** ** Constructors *)

(** The object each constructor leaves behind once it has run to its
    end. *)
Definition new_LogicError : exception_object :=
  LogicError_obj "Error in libMesh internal logic".

Definition new_LogicError_msg (msg : string) : exception_object :=
  LogicError_obj msg.

Definition new_NotImplemented : exception_object :=
  NotImplemented_obj "Error: not implemented!".

Definition new_FileError (filename : string) : exception_object :=
  FileError_obj ("Error accessing file: " ++ filename).

Definition new_ConvergenceFailure : exception_object :=
  ConvergenceFailure_obj "Unrecoverable failure to converge".

Definition new_DynamicCastFailure : exception_object :=
  DynamicCastFailure_obj "Failed dynamic cast!".

Definition new_FloatingPointException : exception_object :=
  FloatingPointException_obj "libmesh FPE!".

(** [global] is the global locale at the time of the call: the
    [std::ostringstream] of the constructor body is imbued with it. *)
Definition new_SolverException (global : locale) (error_code_in : Z)
  : exception_object :=
  let oss := "" in
  let oss := oss ++ "Error code " in
  let oss := oss ++ stream_int global error_code_in in
  let oss := oss ++ " during solve." in
  let oss := oss ++ endl in
  SolverException_obj error_code_in oss.

(** What a raise site supplies: the class to construct and the arguments
    of the constructor it selects. *)
Inductive ctor_call : Type :=
| call_LogicError (msg : option string)
| call_NotImplemented
| call_FileError (filename : string)
| call_ConvergenceFailure
| call_DynamicCastFailure
| call_FloatingPointException
| call_SolverException (error_code_in : Z).


Definition construct (global : locale) (k : ctor_call) : exception_object :=
  match k with
  | call_LogicError None => new_LogicError
  | call_LogicError (Some msg) => new_LogicError_msg msg
  | call_NotImplemented => new_NotImplemented
  | call_FileError filename => new_FileError filename
  | call_ConvergenceFailure => new_ConvergenceFailure
  | call_DynamicCastFailure => new_DynamicCastFailure
  | call_FloatingPointException => new_FloatingPointException
  | call_SolverException c => new_SolverException global c
  end.

(** What a constructor call depends on besides its arguments: whether the
    free store grants a request of a given number of bytes, and the global
    locale. *)
Record environment : Type := {
  operator_new : nat -> bool;
  global_locale : locale
}.

(** How a constructor call ends: with the object, or with the
    [std::bad_alloc] of a refused request. *)
Inductive construction : Type :=
| constructed (e : exception_object)
| threw_bad_alloc.

(** Every constructor of the header builds a [std::string] for its
    message and nothing else that can fail: the call goes through when the
    free store grants the bytes of that string and its terminator. *)
Definition construct_in (env : environment) (k : ctor_call) : construction :=
  let e := construct (global_locale env) k in
  if operator_new env (S (String.length (message e)))
  then constructed e
  else threw_bad_alloc.

(** The state a constructor of the header leaves an object in under the
    global locale [global]: the fixed text of the class, the file-error
    prefix, or the solver message that belongs to the stored code.
    ([LogicError] accepts any text.) *)
Definition well_formed (global : locale) (e : exception_object) : bool :=
  match e with
  | LogicError_obj _ => true
  | NotImplemented_obj w => String.eqb w "Error: not implemented!"
  | FileError_obj w => prefix "Error accessing file: " w
  | ConvergenceFailure_obj w => String.eqb w "Unrecoverable failure to converge"
  | DynamicCastFailure_obj w => String.eqb w "Failed dynamic cast!"
  | FloatingPointException_obj w => String.eqb w "libmesh FPE!"
  | SolverException_obj c m =>
      String.eqb m
        ("Error code " ++ stream_int global c ++ " during solve." ++ endl)
  end.

(** [contains s t]: [t] occurs in [s] as a contiguous run of bytes. *)
Definition contains (s t : string) : bool :=
  match index 0 t s with
  | Some _ => true
  | None => false
  end.

(** ** Member access on a constructed object *)

(** What code holding an object can do with it through the members the
    classes have: call [what()], read or assign the two public data
    members of [SolverException] (neither is declared [const]), and assign
    another object to it with the implicit copy assignment of its class or
    of its <stdexcept> base. *)
Inductive member_op : Type :=
| call_what
| read_error_code
| read_what_message
| assign_error_code (v : Z)
| assign_what_message (v : string)
| copy_assign (src : exception_object).

Inductive member_value : Type :=
| val_void
| val_int (z : Z)
| val_string (s : string).

(** The object with another string in place of its message. *)
Definition with_message (e : exception_object) (m : string)
  : exception_object :=
  match e with
  | LogicError_obj _ => LogicError_obj m
  | NotImplemented_obj _ => NotImplemented_obj m
  | FileError_obj _ => FileError_obj m
  | ConvergenceFailure_obj _ => ConvergenceFailure_obj m
  | DynamicCastFailure_obj _ => DynamicCastFailure_obj m
  | FloatingPointException_obj _ => FloatingPointException_obj m
  | SolverException_obj c _ => SolverException_obj c m
  end.

(** [e = src]: the implicit [operator=] copies every data member, the one
    of [std::logic_error] or [std::runtime_error] copies the message and
    leaves the dynamic type of [e] alone. *)
Definition copy_assigned (e src : exception_object) : exception_object :=
  match src with
  | SolverException_obj c m => SolverException_obj c m
  | _ => with_message e (message src)
  end.

(** [None]: the class of the object has no such member; for
    [copy_assign], the two objects share no assignment operator. *)
Definition member_access (op : member_op) (e : exception_object)
  : option (member_value * exception_object) :=
  match op, e with
  | call_what, _ => Some (val_string (what e), e)
  | read_error_code, SolverException_obj c _ => Some (val_int c, e)
  | read_what_message, SolverException_obj _ m => Some (val_string m, e)
  | assign_error_code v, SolverException_obj _ m =>
      Some (val_void, SolverException_obj v m)
  | assign_what_message v, SolverException_obj c _ =>
      Some (val_void, SolverException_obj c v)
  | copy_assign src, _ =>
      match direct_base (class_of e), direct_base (class_of src) with
      | Some b, Some b' =>
          if class_eqb b b'
          then Some (val_void, copy_assigned e src)
          else None
      | _, _ => None
      end
  | _, _ => None
  end.


(** ** Control flow: throw, abort, try/catch *)

(** How a statement ends: it falls through with a value, it leaves with an
    exception in flight, or the process was killed by [std::abort()]. *)
Inductive outcome (A : Type) : Type :=
| Normal (a : A)
| Thrown (e : exception_object)
| Aborted.

Arguments Normal {A} a.
Arguments Thrown {A} e.
Arguments Aborted {A}.

(** Statements and expressions are state transformers over the program
    state [St]; the state component records every side effect performed so
    far, also when the outcome is [Thrown] or [Aborted]. *)
Definition M (St A : Type) : Type := St -> outcome A * St.

Definition ret {St A : Type} (a : A) : M St A :=
  fun s => (Normal a, s).

Definition bind {St A B : Type} (m : M St A) (f : A -> M St B) : M St B :=
  fun s =>
    match m s with
    | (Normal a, s') => f a s'
    | (Thrown e, s') => (Thrown e, s')
    | (Aborted, s') => (Aborted, s')
    end.

Declare Scope cxx_scope.
Delimit Scope cxx_scope with cxx.
Notation "x <- m ;; k" := (bind m (fun x => k))
  (at level 61, m at next level, right associativity) : cxx_scope.
Notation "m ;; k" := (bind m (fun _ => k))
  (at level 61, right associativity) : cxx_scope.
Local Open Scope cxx_scope.

(** [throw e;] with the operand already evaluated. *)
Definition cxx_throw {St : Type} (e : exception_object) : M St unit :=
  fun s => (Thrown e, s).

(** [std::abort();] *)
Definition std_abort {St : Type} : M St unit :=
  fun s => (Aborted, s).

(** [if (c) { body }] *)
Definition cxx_if {St : Type} (c : bool) (body : M St unit) : M St unit :=
  if c then body else ret tt.

(** The exception-declaration of a handler: [catch (T &)] for a class
    [T], or [catch (...)]. *)
Inductive catch_decl : Type :=
| catch_type (T : class)
| catch_all.

(** A handler matches an object whose class is [T] or derives from it. *)
Definition catch_matches (d : catch_decl) (e : exception_object) : bool :=
  match d with
  | catch_type T => is_base_of T (class_of e)
  | catch_all => true
  end.

Definition handler (St : Type) : Type :=
  (catch_decl * (exception_object -> M St unit))%type.

(** Handlers are tried in order of appearance; the first match is taken. *)
Fixpoint select_handler {St : Type} (hs : list (handler St))
    (e : exception_object) : option (exception_object -> M St unit) :=
  match hs with
  | [] => None
  | (d, h) :: hs' => if catch_matches d e then Some h else select_handler hs' e
  end.

(** [try { body } catch (d1) { h1 } catch (d2) { h2 } ...]: an exception
    leaving [body] is handed to the selected handler, or keeps propagating
    when none matches.  What the handler itself throws is not offered to
    its siblings. *)
Definition cxx_try {St : Type} (body : M St unit) (hs : list (handler St))
  : M St unit :=
  fun s =>
    match body s with
    | (Thrown e, s') =>
        match select_handler hs e with
        | Some h => h e s'
        | None => (Thrown e, s')
        end
    | r => r
    end.

(** How the process ends when [main] is the whole program: an exception
    nobody caught reaches [std::terminate()], which aborts. *)
Inductive process_end : Type :=
| exit_success
| killed_by_abort.

Definition run_process {St : Type} (main : M St unit) (s : St)
  : process_end * St :=
  match main s with
  | (Normal _, s') => (exit_success, s')
  | (Thrown _, s') => (killed_by_abort, s')
  | (Aborted, s') => (killed_by_abort, s')
  end.

(** ** The macros *)

(** [LIBMESH_THROW(e)].  With [LIBMESH_ENABLE_EXCEPTIONS] it is
    [do { throw e; } while (0)]: the operand is evaluated, then thrown.
    Without, it is [do { std::abort(); } while (0)]: the operand is dropped
    by the preprocessor and never evaluated. *)
Definition LIBMESH_THROW {St : Type} (LIBMESH_ENABLE_EXCEPTIONS : bool)
    (e : M St exception_object) : M St unit :=
  if LIBMESH_ENABLE_EXCEPTIONS
  then x <- e ;; cxx_throw x
  else std_abort.

(** What the body of [libmesh_catch (d) { body }] can refer to.  With
    exceptions, [d] binds the caught object.  Without, the preprocessor
    drops [d] together with the keyword, and nothing is bound. *)
Definition caught (LIBMESH_ENABLE_EXCEPTIONS : bool) : Type :=
  if LIBMESH_ENABLE_EXCEPTIONS then exception_object else unit.

(** A handler as a call site writes it: the declaration and the body. *)
Definition libmesh_handler (St : Type) (LIBMESH_ENABLE_EXCEPTIONS : bool)
  : Type :=
  (catch_decl * (caught LIBMESH_ENABLE_EXCEPTIONS -> M St unit))%type.

(** [libmesh_catch(d) { body }] without exceptions: [if (0) { body }],
    one such statement per handler, following the block. *)
Fixpoint libmesh_catch_disabled {St : Type}
    (hs : list (libmesh_handler St false)) : M St unit :=
  match hs with
  | [] => ret tt
  | h :: hs' => cxx_if false (snd h tt) ;; libmesh_catch_disabled hs'
  end.

(** [libmesh_try { body } libmesh_catch (d1) { h1 } ...].  With exceptions
    [libmesh_try] is [try] and [libmesh_catch(d)] is [catch(d)]: the
    statement is the try-block.  Without, [libmesh_try] expands to nothing
    and leaves the bare block, followed by the [if (0)] statements. *)
Definition libmesh_try {St : Type} (LIBMESH_ENABLE_EXCEPTIONS : bool)
  : M St unit -> list (libmesh_handler St LIBMESH_ENABLE_EXCEPTIONS) ->
    M St unit :=
  match LIBMESH_ENABLE_EXCEPTIONS with
  | true => fun body hs => cxx_try body hs
  | false => fun body hs => body ;; libmesh_catch_disabled hs
  end.

(** Handlers that report their position in the list through [enter]
    before running their own body. *)
Fixpoint announce_from {St : Type} (enter : nat -> M St unit) (i : nat)
    (hs : list (handler St)) : list (handler St) :=
  match hs with
  | [] => []
  | (d, h) :: hs' =>
      (d, fun e => enter i ;; h e) :: announce_from enter (S i) hs'
  end.

Definition announce {St : Type} (enter : nat -> M St unit)
    (hs : list (handler St)) : list (handler St) :=
  announce_from enter 0 hs.

(** [if (c) { thn } else { els }] *)
Definition cxx_if_else {St : Type} (c : bool) (thn els : M St unit)
  : M St unit :=
  if c then thn else els.

(** [if (c) libmesh_try { body } libmesh_catch (d) { h } else { alt }],
    the construct written as the sub-statement of an [if] without braces
    around it.  With exceptions the try-block is one statement and the
    [else] belongs to [if (c)].  Without, the text is
    [if (c) { body } if (0) { h } else { alt }]: the [if (c)] statement
    ends with the block, and the [else] belongs to [if (0)]. *)
Definition if_libmesh_try_else {St : Type} (LIBMESH_ENABLE_EXCEPTIONS : bool)
  : bool -> M St unit -> libmesh_handler St LIBMESH_ENABLE_EXCEPTIONS ->
    M St unit -> M St unit :=
  match LIBMESH_ENABLE_EXCEPTIONS with
  | true => fun c body h alt => cxx_if_else c (cxx_try body [h]) alt
  | false => fun c body h alt =>
               cxx_if c body ;; cxx_if_else false (snd h tt) alt
  end.

(** A program state that is nothing but the log of the side effects
    performed so far, and the statement that appends one entry to it. *)
Definition log : Type := list nat.

Definition emit (n : nat) : M log unit :=
  fun s => (Normal tt, (s ++ [n])%list).

(** The one constructor whose description is the caller's own text:
    [LogicError(const std::string &)]. *)
Definition takes_message (k : ctor_call) : bool :=
  match k with
  | call_LogicError (Some _) => true
  | _ => false
  end.

(** The string argument of the call, if it has one, holds no NUL byte. *)
Definition nul_free_call (k : ctor_call) : bool :=
  match k with
  | call_LogicError (Some msg) => no_nul msg
  | call_FileError filename => no_nul filename
  | _ => true
  end.

(** * Properties *)

(** ** The inheritance graph *)

Lemma class_eqb_eq : forall a b, class_eqb a b = true <-> a = b.
Proof.
  intros a b; split.
  - destruct a, b; simpl; intro H; try reflexivity; discriminate H.
  - intros ->; destruct b; reflexivity.
Qed.

(** The cut-off of [base_chain] loses nothing: [is_base_of] decides
    [derives]. *)
Lemma is_base_of_derives : forall b d, is_base_of b d = true <-> derives d b.
Proof.
  intros b d; split.
  - intro H.
    destruct d, b; try discriminate H;
      repeat (first [ apply derives_refl
                    | eapply derives_step; [ reflexivity | ] ]).
  - intro H; induction H as [c | d m b Hd _ IH].
    + destruct c; reflexivity.
    + destruct d; simpl in Hd; inversion Hd; subst m;
        destruct b; try reflexivity; discriminate IH.
Qed.

Lemma derives_trans : forall a b c, derives a b -> derives b c -> derives a c.
Proof.
  intros a b c Hab; induction Hab as [x | d m b Hd _ IH]; intro Hbc.
  - exact Hbc.
  - eapply derives_step; [ exact Hd | exact (IH Hbc) ].
Qed.

(** A handler for a base class takes whatever a handler for a derived
    class takes. *)
Lemma catch_base_covers_derived : forall T U e,
  is_base_of U T = true ->
  catch_matches (catch_type T) e = true ->
  catch_matches (catch_type U) e = true.
Proof.
  unfold catch_matches; intros T U e HU HT.
  apply is_base_of_derives in HU, HT.
  apply is_base_of_derives.
  eapply derives_trans; eassumption.
Qed.

(** ** Strings *)

Lemma append_assoc : forall a b c : string, (a ++ b) ++ c = a ++ (b ++ c).
Proof.
  induction a as [| x a IH]; intros b c; simpl; [ reflexivity | now rewrite IH ].
Qed.

Lemma length_append : forall a b : string,
  String.length (a ++ b) = String.length a + String.length b.
Proof.
  induction a as [| x a IH]; intro b; simpl; [ reflexivity | now rewrite IH ].
Qed.

Lemma substring_whole : forall s, substring 0 (String.length s) s = s.
Proof.
  induction s as [| a s IH]; simpl; [ reflexivity | now rewrite IH ].
Qed.

Lemma substring_after_prefix : forall p s,
  substring (String.length p) (String.length s) (p ++ s) = s.
Proof.
  induction p as [| a p IH]; intro s; simpl.
  - apply substring_whole.
  - apply IH.
Qed.

Lemma contains_at : forall n s t,
  substring n (String.length t) s = t -> contains s t = true.
Proof.
  intros n s t H; unfold contains.
  destruct (index 0 t s) eqn:E; [ reflexivity | ].
  destruct t as [| a t].
  - apply index_correct4 in E; inversion E.
  - exfalso.
    apply (index_correct3 0 n (String a t) s E); [ discriminate | lia | exact H ].
Qed.

Lemma contains_appended : forall p s, contains (p ++ s) s = true.
Proof.
  intros p s; apply (contains_at (String.length p)), substring_after_prefix.
Qed.


Lemma append_cancel_r : forall a b s : string, a ++ s = b ++ s -> a = b.
Proof.
  induction a as [| x a IH]; intros [| y b] s H; simpl in H.
  - reflexivity.
  - exfalso.
    assert (L : String.length s = String.length (String y (b ++ s)))
      by now rewrite <- H.
    simpl in L; rewrite length_append in L; lia.
  - exfalso.
    assert (L : String.length (String x (a ++ s)) = String.length s)
      by now rewrite H.
    simpl in L; rewrite length_append in L; lia.
  - inversion H as [[Hx Hrest]]; f_equal; exact (IH b s Hrest).
Qed.

(** ** C strings *)

Lemma c_str_no_nul : forall s, no_nul s = true -> c_str s = s.
Proof.
  induction s as [| a s IH]; simpl; intro H; [ reflexivity | ].
  apply andb_true_iff in H as [Ha Hs].
  destruct (Ascii.eqb a Ascii.zero); [ discriminate Ha | ].
  now rewrite (IH Hs).
Qed.

Lemma no_nul_append : forall a b, no_nul (a ++ b) = no_nul a && no_nul b.
Proof.
  induction a as [| x a IH]; intro b; simpl; [ reflexivity | ].
  now rewrite IH, andb_assoc.
Qed.

Lemma c_str_append : forall a b,
  no_nul a = true -> c_str (a ++ b) = a ++ c_str b.
Proof.
  induction a as [| x a IH]; intros b H; simpl in *; [ reflexivity | ].
  apply andb_true_iff in H as [Hx Ha].
  destruct (Ascii.eqb x Ascii.zero); [ discriminate Hx | ].
  now rewrite (IH b Ha).
Qed.

Lemma no_nul_c_str : forall s, no_nul (c_str s) = true.
Proof.
  induction s as [| a s IH]; simpl; [ reflexivity | ].
  destruct (Ascii.eqb a Ascii.zero) eqn:E; simpl; [ reflexivity | ].
  now rewrite E, IH.
Qed.

(** A string with a NUL byte is longer than what [c_str] shows of it. *)
Lemma c_str_shorter : forall s,
  no_nul s = false -> String.length (c_str s) < String.length s.
Proof.
  induction s as [| a s IH]; simpl; intro H; [ discriminate H | ].
  destruct (Ascii.eqb a Ascii.zero); simpl in *; [ lia | ].
  specialize (IH H); lia.
Qed.

Lemma no_nul_of_list : forall l,
  no_nul (string_of_list_ascii l)
  = forallb (fun a => negb (Ascii.eqb a Ascii.zero)) l.
Proof.
  induction l as [| a l IH]; simpl; [ reflexivity | now rewrite IH ].
Qed.

(** ** Integers on a stream *)

Lemma group_digits_injective :
  forall sep ds1 ds2 later size room,
    group_digits sep later size room ds1 = group_digits sep later size room ds2 ->
    ds1 = ds2.
Proof.
  intros sep; induction ds1 as [| d1 ds1 IH]; intros [| d2 ds2] later size room H.
  - reflexivity.
  - simpl in H; destruct size; [ discriminate H | ].
    destruct room; [ destruct later | ]; discriminate H.
  - simpl in H; destruct size; [ discriminate H | ].
    destruct room; [ destruct later | ]; discriminate H.
  - simpl in H; destruct size as [| n]; [ exact H | ].
    destruct room as [| r].
    + destruct later as [| next later'];
        inversion H as [[Hd Hrest]]; f_equal; exact (IH _ _ _ _ Hrest).
    + inversion H as [[Hd Hrest]]; f_equal; exact (IH _ _ _ _ Hrest).
Qed.

(** The most significant digit stays the last one put. *)
Lemma group_digits_keeps_last :
  forall sep a ds later size room,
    exists pre,
      group_digits sep later size room (ds ++ [a])%list = (pre ++ [a])%list.
Proof.
  intros sep a; induction ds as [| d ds IH]; intros later size room; simpl.
  - destruct size as [| n]; [ now exists [] | ].
    destruct room as [| r]; [ | now exists [] ].
    destruct later as [| next later']; now exists [sep].
  - destruct size as [| n]; [ now exists (d :: ds) | ].
    destruct room as [| r].
    + destruct later as [| next later'].
      * destruct (IH [] (S n) (S n - 1)) as [pre Hpre].
        exists (sep :: d :: pre); simpl in *; now rewrite Hpre.
      * destruct (IH later' next (next - 1)) as [pre Hpre].
        exists (sep :: d :: pre); simpl; now rewrite Hpre.
    + destruct (IH later (S n) r) as [pre Hpre].
      exists (d :: pre); simpl; now rewrite Hpre.
Qed.

Lemma group_digits_members :
  forall sep ds later size room x,
    In x (group_digits sep later size room ds) -> x = sep \/ In x ds.
Proof.
  intros sep; induction ds as [| d ds IH]; intros later size room x H;
    simpl in H; [ contradiction | ].
  destruct size as [| n]; [ now right | ].
  destruct room as [| r].
  - destruct later as [| next later'];
      (destruct H as [<- | [<- | H]];
       [ now left | right; now left | ];
       destruct (IH _ _ _ _ H) as [-> | Hin];
       [ now left | right; now right ]).
  - destruct H as [<- | H]; [ right; now left | ].
    destruct (IH _ _ _ _ H) as [-> | Hin]; [ now left | right; now right ].
Qed.

Lemma put_digits_injective : forall loc a b,
  put_digits loc a = put_digits loc b -> a = b.
Proof.
  unfold put_digits; intros loc a b H.
  destruct (grouping loc) as [| size later]; [ exact H | ].
  apply (f_equal list_ascii_of_string) in H.
  rewrite !list_ascii_of_string_of_list_ascii in H.
  apply (f_equal (@List.rev ascii)) in H; rewrite !rev_involutive in H.
  apply group_digits_injective in H.
  apply (f_equal (@List.rev ascii)) in H; rewrite !rev_involutive in H.
  apply (f_equal string_of_list_ascii) in H.
  now rewrite !string_of_list_ascii_of_string in H.
Qed.

Lemma put_digits_empty : forall loc, put_digits loc "" = "".
Proof.
  intro loc; unfold put_digits; now destruct (grouping loc).
Qed.

Lemma put_digits_head : forall loc a s,
  exists t, put_digits loc (String a s) = String a t.
Proof.
  intros loc a s; unfold put_digits.
  destruct (grouping loc) as [| size later]; [ now exists s | ].
  cbn [list_ascii_of_string List.rev].
  destruct (group_digits_keeps_last (thousands_sep loc) a
              (List.rev (list_ascii_of_string s)) later size size)
    as [pre Hpre].
  rewrite Hpre, rev_app_distr; simpl.
  now eexists.
Qed.

Lemma string_of_uint_head : forall u a s,
  NilEmpty.string_of_uint u = String a s -> a <> "-"%char.
Proof.
  intros u a s H; destruct u; simpl in H; inversion H; discriminate.
Qed.

Lemma string_of_uint_injective : forall u v,
  NilEmpty.string_of_uint u = NilEmpty.string_of_uint v -> u = v.
Proof.
  intros u v H.
  assert (I : Some u = Some v)
    by (rewrite <- (NilEmpty.usu u), <- (NilEmpty.usu v); now rewrite H).
  now inversion I.
Qed.

Lemma put_digits_not_minus : forall loc u s,
  put_digits loc (NilEmpty.string_of_uint u) <> String "-" s.
Proof.
  intros loc u s H.
  destruct (NilEmpty.string_of_uint u) as [| a t] eqn:E.
  - rewrite put_digits_empty in H; discriminate H.
  - destruct (put_digits_head loc a t) as [t' Ht'].
    rewrite Ht' in H.
    assert (Ha : a = "-"%char) by now inversion H.
    exact (string_of_uint_head u a t E Ha).
Qed.

(** Under one locale, different integers are written differently. *)
Lemma stream_int_injective : forall loc c1 c2,
  stream_int loc c1 = stream_int loc c2 -> c1 = c2.
Proof.
  unfold stream_int; intros loc c1 c2 H.
  assert (I : Z.to_int c1 = Z.to_int c2).
  { destruct (Z.to_int c1) as [u1 | u1], (Z.to_int c2) as [u2 | u2].
    - f_equal; apply string_of_uint_injective.
      exact (put_digits_injective loc _ _ H).
    - now elim (put_digits_not_minus loc u1 _ H).
    - symmetry in H; now elim (put_digits_not_minus loc u2 _ H).
    - inversion H as [H']; f_equal; apply string_of_uint_injective.
      exact (put_digits_injective loc _ _ H'). }
  rewrite <- (DecimalZ.of_to c1), <- (DecimalZ.of_to c2); now rewrite I.
Qed.

Lemma no_nul_string_of_uint : forall u,
  no_nul (NilEmpty.string_of_uint u) = true.
Proof. induction u; simpl; auto. Qed.

Lemma no_nul_put_digits : forall loc ds,
  Ascii.eqb (thousands_sep loc) Ascii.zero = false ->
  no_nul ds = true ->
  no_nul (put_digits loc ds) = true.
Proof.
  unfold put_digits; intros loc ds Hsep Hds.
  destruct (grouping loc) as [| size later]; [ exact Hds | ].
  rewrite no_nul_of_list; apply forallb_forall; intros x Hx.
  apply in_rev, group_digits_members in Hx as [-> | Hx].
  - now rewrite Hsep.
  - apply in_rev in Hx.
    rewrite <- (string_of_list_ascii_of_string ds), no_nul_of_list in Hds.
    exact (proj1 (forallb_forall _ _) Hds x Hx).
Qed.

Lemma no_nul_stream_int : forall loc c,
  Ascii.eqb (thousands_sep loc) Ascii.zero = false ->
  no_nul (stream_int loc c) = true.
Proof.
  unfold stream_int; intros loc c Hsep.
  destruct (Z.to_int c) as [u | u]; simpl;
    apply no_nul_put_digits; auto using no_nul_string_of_uint.
Qed.

(** Without grouping the text is the decimal numeral of the integer. *)
Lemma stream_int_classic : forall c,
  stream_int classic_locale c = NilEmpty.string_of_int (Z.to_int c).
Proof. intro c; unfold stream_int; now destruct (Z.to_int c). Qed.

(** One digit makes one group, whatever the locale. *)
Lemma stream_int_7 : forall loc, stream_int loc 7 = "7".
Proof.
  intro loc; unfold stream_int, put_digits; simpl.
  destruct (grouping loc) as [| [| n] later]; reflexivity.
Qed.

(** ** Descriptions *)

Lemma message_SolverException : forall global c,
  message (new_SolverException global c)
  = "Error code " ++ stream_int global c ++ " during solve." ++ endl.
Proof.
  intros global c; unfold new_SolverException; cbn [message].
  now rewrite !append_assoc.
Qed.

Lemma what_SolverException : forall global c,
  Ascii.eqb (thousands_sep global) Ascii.zero = false ->
  what (new_SolverException global c)
  = "Error code " ++ stream_int global c ++ " during solve." ++ endl.
Proof.
  intros global c Hsep; unfold what.
  rewrite message_SolverException.
  apply c_str_no_nul.
  rewrite !no_nul_append, (no_nul_stream_int global c Hsep); reflexivity.
Qed.

Lemma what_FileError : forall F,
  what (new_FileError F) = "Error accessing file: " ++ c_str F.
Proof.
  intro F; unfold what, new_FileError; cbn [message].
  now apply c_str_append.
Qed.

Lemma message_SolverException_injective : forall global c1 c2,
  message (new_SolverException global c1)
  = message (new_SolverException global c2) ->
  c1 = c2.
Proof.
  intros global c1 c2 H; rewrite !message_SolverException in H.
  simpl in H; inversion H as [H'].
  apply (stream_int_injective global).
  exact (append_cancel_r _ _ _ H').
Qed.

Lemma what_SolverException_injective : forall global c1 c2,
  Ascii.eqb (thousands_sep global) Ascii.zero = false ->
  what (new_SolverException global c1) = what (new_SolverException global c2) ->
  c1 = c2.
Proof.
  intros global c1 c2 Hsep H.
  rewrite !(what_SolverException global _ Hsep) in H.
  apply (message_SolverException_injective global).
  now rewrite !message_SolverException.
Qed.

Example FileError_empty_name :
  what (new_FileError "") = "Error accessing file: ".
Proof. reflexivity. Qed.

Example FileError_path_with_blank :
  what (new_FileError "/tmp/my mesh/in put.xda")
  = "Error accessing file: /tmp/my mesh/in put.xda".
Proof. reflexivity. Qed.

Example SolverException_negative_code :
  what (new_SolverException classic_locale (-76))
  = "Error code -76 during solve." ++ endl.
Proof. reflexivity. Qed.

Example SolverException_zero_code :
  what (new_SolverException classic_locale 0)
  = "Error code 0 during solve." ++ endl.
Proof. reflexivity. Qed.

Example SolverException_two_step_grouping :
  what (new_SolverException {| grouping := [3; 2]; thousands_sep := "," |}
          (-123456789))
  = "Error code -12,34,56,789 during solve." ++ endl.
Proof. reflexivity. Qed.

(** C7. A [LogicError] built by the constructor without arguments
    describes itself with the fixed text
    "Error in libMesh internal logic". *)
Theorem LogicError_default_description :
  what new_LogicError = "Error in libMesh internal logic"
  /\ (forall global,
        what (construct global (call_LogicError None))
        = "Error in libMesh internal logic")
  /\ class_of new_LogicError = LogicError.
Proof. repeat split. Qed.

(** C10, as stated, fails: [what()] hands the message out as a C string,
    so of a message with a NUL byte in it only the part before that byte
    is the description. *)
Lemma LogicError_msg_cut_at_nul :
  what (new_LogicError_msg (String "a" (String Ascii.zero "b"))) = "a"
  /\ what (new_LogicError_msg (String "a" (String Ascii.zero "b")))
     <> String "a" (String Ascii.zero "b")
  /\ ~ (forall msg : string, what (new_LogicError_msg msg) = msg).
Proof.
  split; [ reflexivity | ].
  split; [ discriminate | ].
  intro H; specialize (H (String "a" (String Ascii.zero "b"))).
  discriminate H.
Qed.

(** C10, amended. A [LogicError] built from a message stores that message
    unaltered (no prefix, no template, no default text), and its
    description is the message up to its first NUL byte: the description
    is exactly the message if and only if the message has no NUL byte. *)
Theorem LogicError_msg_description : forall msg : string,
  message (new_LogicError_msg msg) = msg
  /\ what (new_LogicError_msg msg) = c_str msg
  /\ (forall global,
        what (construct global (call_LogicError (Some msg))) = c_str msg)
  /\ (no_nul msg = true <-> what (new_LogicError_msg msg) = msg).
Proof.
  intro msg.
  repeat (split; [ reflexivity | ]).
  unfold what; cbn [new_LogicError_msg message]; split.
  - apply c_str_no_nul.
  - intro H; destruct (no_nul msg) eqn:E; [ reflexivity | exfalso ].
    pose proof (c_str_shorter msg E) as L; rewrite H in L; lia.
Qed.

(** C3, as stated, fails: [what()] hands the message out as a C string,
    so a file name with a NUL byte in it is cut there and does not occur
    in the description. *)
Lemma FileError_name_cut_at_nul :
  what (new_FileError (String "a" (String Ascii.zero "b")))
  = "Error accessing file: a"
  /\ contains (what (new_FileError (String "a" (String Ascii.zero "b"))))
       (String "a" (String Ascii.zero "b")) = false
  /\ ~ (forall F : string, contains (what (new_FileError F)) F = true).
Proof.
  split; [ reflexivity | ].
  split; [ reflexivity | ].
  intro H; specialize (H (String "a" (String Ascii.zero "b"))).
  discriminate H.
Qed.

(** C3, amended. A [FileError] stores the fixed prefix followed by the
    file name as given, and its description is the prefix followed by the
    file name up to its first NUL byte.  For every file name without a NUL
    byte (empty, with path separators, with blanks) the description holds
    the name byte for byte after the 22 bytes of the prefix, and for
    "missing.dat" it is "Error accessing file: missing.dat". *)
Theorem FileError_description_embeds_filename : forall F : string,
  message (new_FileError F) = "Error accessing file: " ++ F
  /\ what (new_FileError F) = "Error accessing file: " ++ c_str F
  /\ contains (what (new_FileError F)) (c_str F) = true
  /\ (no_nul F = true ->
        what (new_FileError F) = "Error accessing file: " ++ F
        /\ contains (what (new_FileError F)) F = true
        /\ substring 22 (String.length F) (what (new_FileError F)) = F
        /\ String.length (what (new_FileError F)) = 22 + String.length F)
  /\ what (new_FileError "missing.dat") = "Error accessing file: missing.dat".
Proof.
  intro F.
  split; [ reflexivity | ].
  split; [ apply what_FileError | ].
  split; [ rewrite what_FileError; apply contains_appended | ].
  split; [ | reflexivity ].
  intro HF; rewrite what_FileError, (c_str_no_nul F HF).
  split; [ reflexivity | ].
  split; [ apply contains_appended | ].
  split; [ apply (substring_after_prefix "Error accessing file: " F) | ].
  now rewrite length_append.
Qed.

(** C4, as stated, fails: the message is written through a stream imbued
    with the global locale, so the same code gives different descriptions
    under different global locales. *)
Lemma SolverException_description_follows_locale :
  what (new_SolverException classic_locale 1234567)
  = "Error code 1234567 during solve." ++ endl
  /\ what (new_SolverException {| grouping := [3]; thousands_sep := "," |}
             1234567)
     = "Error code 1,234,567 during solve." ++ endl
  /\ ~ (forall (global1 global2 : locale) (C : Z),
          what (new_SolverException global1 C)
          = what (new_SolverException global2 C)).
Proof.
  split; [ reflexivity | ].
  split; [ reflexivity | ].
  intro H.
  specialize (H classic_locale {| grouping := [3]; thousands_sep := "," |}
                1234567%Z).
  discriminate H.
Qed.

(** C4, amended. The [error_code] member of a [SolverException] built
    from [C] reads back [C].  Its message is "Error code ", [C] as the
    global locale of the moment writes it, " during solve." and a line
    feed: a function of [C] and that locale, which is the description
    unless the locale separates groups with a NUL byte.  In the classic
    locale [C] is written as its decimal numeral.  For [C = 7] the
    description is "Error code 7 during solve." and a line feed in every
    locale, and contains "7". *)
Theorem SolverException_code_and_description :
  forall (global : locale) (C : Z),
    error_code (new_SolverException global C) = Some C
    /\ member_access read_error_code (new_SolverException global C)
       = Some (val_int C, new_SolverException global C)
    /\ message (new_SolverException global C)
       = "Error code " ++ stream_int global C ++ " during solve." ++ endl
    /\ (Ascii.eqb (thousands_sep global) Ascii.zero = false ->
          what (new_SolverException global C)
          = "Error code " ++ stream_int global C ++ " during solve." ++ endl)
    /\ what (new_SolverException classic_locale C)
       = "Error code " ++ NilEmpty.string_of_int (Z.to_int C)
         ++ " during solve." ++ endl
    /\ error_code (new_SolverException global 7) = Some 7%Z
    /\ what (new_SolverException global 7)
       = "Error code 7 during solve." ++ endl
    /\ contains (what (new_SolverException global 7)) "7" = true.
Proof.
  intros global C.
  split; [ reflexivity | ].
  split; [ reflexivity | ].
  split; [ apply message_SolverException | ].
  split; [ apply what_SolverException | ].
  split; [ rewrite what_SolverException, stream_int_classic; reflexivity | ].
  split; [ reflexivity | ].
  assert (W : what (new_SolverException global 7)
              = "Error code 7 during solve." ++ endl).
  { unfold what; rewrite message_SolverException, stream_int_7; reflexivity. }
  split; [ exact W | rewrite W; reflexivity ].
Qed.

(** ** Construction *)




Example ConvergenceFailure_needs_34_bytes :
  construct_in {| operator_new := fun n => Nat.leb n 33;
                  global_locale := classic_locale |} call_ConvergenceFailure
  = threw_bad_alloc
  /\ construct_in {| operator_new := fun n => Nat.leb n 34;
                     global_locale := classic_locale |} call_ConvergenceFailure
     = constructed new_ConvergenceFailure.
Proof. split; reflexivity. Qed.



(** ** What a description tells about the raise *)

(** X1. The description of a [FileError] determines the file name up to
    its first NUL byte, which is what follows the first 22 bytes of the
    description: two file errors with the same description and file names
    without NUL bytes name the same file. *)
Theorem FileError_filename_recoverable : forall F1 F2 : string,
  what (new_FileError F1) = what (new_FileError F2) ->
  c_str F1 = c_str F2
  /\ (no_nul F1 = true -> no_nul F2 = true -> F1 = F2)
  /\ substring 22 (String.length (what (new_FileError F1)) - 22)
       (what (new_FileError F1)) = c_str F2.
Proof.
  intros F1 F2 H.
  assert (E : c_str F1 = c_str F2).
  { rewrite !what_FileError in H; simpl in H; now inversion H. }
  split; [ exact E | ].
  split.
  - intros N1 N2; now rewrite <- (c_str_no_nul F1 N1), <- (c_str_no_nul F2 N2).
  - rewrite what_FileError, length_append, <- E.
    replace (String.length "Error accessing file: "
             + String.length (c_str F1) - 22)
      with (String.length (c_str F1)) by (simpl; lia).
    apply (substring_after_prefix "Error accessing file: " (c_str F1)).
Qed.

Lemma FileError_filename_recoverable_witness :
  c_str "a b/c.xda" = c_str "a b/c.xda"
  /\ (no_nul "a b/c.xda" = true -> no_nul "a b/c.xda" = true ->
      "a b/c.xda" = "a b/c.xda")
  /\ substring 22 (String.length (what (new_FileError "a b/c.xda")) - 22)
       (what (new_FileError "a b/c.xda")) = c_str "a b/c.xda".
Proof.
  apply (FileError_filename_recoverable "a b/c.xda" "a b/c.xda").
  reflexivity.
Defined.

Example FileError_names_alike_up_to_nul :
  what (new_FileError (String "a" (String Ascii.zero "b")))
  = what (new_FileError (String "a" (String Ascii.zero "c"))).
Proof. reflexivity. Qed.

(** X2. Under one global locale (whose group separator is not the NUL
    byte), different solver codes give different descriptions: the
    [what()] text of a [SolverException] determines the code it was built
    from. *)
Theorem SolverException_description_determines_code :
  forall (global : locale) (c1 c2 : Z),
    Ascii.eqb (thousands_sep global) Ascii.zero = false ->
    what (new_SolverException global c1) = what (new_SolverException global c2) ->
    c1 = c2
    /\ error_code (new_SolverException global c1)
       = error_code (new_SolverException global c2).
Proof.
  intros global c1 c2 Hsep H.
  assert (E : c1 = c2)
    by exact (what_SolverException_injective global c1 c2 Hsep H).
  split; [ exact E | now subst ].
Qed.

Lemma SolverException_description_determines_code_witness :
  (-76 = -76)%Z
  /\ error_code (new_SolverException classic_locale (-76))
     = error_code (new_SolverException classic_locale (-76)).
Proof.
  apply (SolverException_description_determines_code classic_locale (-76) (-76));
    reflexivity.
Defined.

Lemma what_construct : forall global k,
  Ascii.eqb (thousands_sep global) Ascii.zero = false ->
  nul_free_call k = true ->
  what (construct global k)
  = match k with
    | call_LogicError None => "Error in libMesh internal logic"
    | call_LogicError (Some msg) => msg
    | call_NotImplemented => "Error: not implemented!"
    | call_FileError filename => "Error accessing file: " ++ filename
    | call_ConvergenceFailure => "Unrecoverable failure to converge"
    | call_DynamicCastFailure => "Failed dynamic cast!"
    | call_FloatingPointException => "libmesh FPE!"
    | call_SolverException c =>
        "Error code " ++ stream_int global c ++ " during solve." ++ endl
    end.
Proof.
  intros global k Hsep Hk; destruct k as [[m |] | | f | | | | c];
    try reflexivity; simpl in Hk.
  - exact (c_str_no_nul m Hk).
  - cbn [construct]; now rewrite what_FileError, (c_str_no_nul f Hk).
  - exact (what_SolverException global c Hsep).
Qed.

(** X3. Apart from a [LogicError] built from the caller's own message,
    and for string arguments without NUL bytes, the description tells
    which constructor ran and with which argument: under one global
    locale (whose group separator is not the NUL byte) two constructor
    calls with the same description are the same call.  (The fixed texts
    differ from each other and from the two templates.) *)
Theorem description_determines_ctor_call :
  forall (global : locale) (k1 k2 : ctor_call),
    Ascii.eqb (thousands_sep global) Ascii.zero = false ->
    takes_message k1 = false ->
    takes_message k2 = false ->
    nul_free_call k1 = true ->
    nul_free_call k2 = true ->
    what (construct global k1) = what (construct global k2) ->
    k1 = k2.
Proof.
  intros global k1 k2 Hsep T1 T2 N1 N2 H.
  rewrite (what_construct global k1 Hsep N1),
          (what_construct global k2 Hsep N2) in H.
  destruct k1 as [[m1 |] | | f1 | | | | c1]; try discriminate T1;
    destruct k2 as [[m2 |] | | f2 | | | | c2]; try discriminate T2;
    try reflexivity;
    try (simpl in H; discriminate H).
  - simpl in H; inversion H; reflexivity.
  - f_equal; apply (message_SolverException_injective global).
    now rewrite !message_SolverException.
Qed.

Lemma description_determines_ctor_call_witness :
  call_FileError "a b/c.xda" = call_FileError "a b/c.xda".
Proof.
  apply (description_determines_ctor_call
           {| grouping := [3]; thousands_sep := "," |}
           (call_FileError "a b/c.xda") (call_FileError "a b/c.xda"));
    reflexivity.
Defined.

Example custom_message_can_imitate :
  what (construct classic_locale (call_LogicError (Some "libmesh FPE!")))
  = what (construct classic_locale call_FloatingPointException).
Proof. reflexivity. Qed.

(** ** Members of a constructed object *)


Lemma what_with_message : forall e m, what (with_message e m) = c_str m.
Proof. intros e m; destruct e; reflexivity. Qed.

Lemma class_of_with_message : forall e m,
  class_of (with_message e m) = class_of e.
Proof. intros e m; destruct e; reflexivity. Qed.


Example SolverException_reassigned_code :
  member_access (assign_error_code 8) (new_SolverException classic_locale 7)
  = Some (val_void, SolverException_obj 8 ("Error code 7 during solve." ++ endl)).
Proof. reflexivity. Qed.

Example FileError_assigned_from_ConvergenceFailure :
  member_access (copy_assign new_ConvergenceFailure) (new_FileError "a")
  = Some (val_void, FileError_obj "Unrecoverable failure to converge").
Proof. reflexivity. Qed.

Example SolverException_not_assignable_from_FileError :
  member_access (copy_assign (new_FileError "a"))
    (new_SolverException classic_locale 7)
  = None.
Proof. reflexivity. Qed.




(** X4. Assigning the public member [error_code] does not rebuild the
    message: the object that results reads back the assigned code while
    [what()] still names the code given to the constructor, so it is in a
    constructor-made state only when the assigned code is the old one. *)
Theorem assigned_code_leaves_stale_description :
  forall (global : locale) (c v : Z),
    exists e',
      member_access (assign_error_code v) (new_SolverException global c)
      = Some (val_void, e')
      /\ error_code e' = Some v
      /\ what e' = what (new_SolverException global c)
      /\ message e' = message (new_SolverException global c)
      /\ well_formed global e' = (v =? c)%Z.
Proof.
  intros global c v.
  exists (SolverException_obj v (message (new_SolverException global c))).
  repeat (split; [ reflexivity | ]).
  cbn [well_formed].
  rewrite <- (message_SolverException global v).
  destruct (Z.eqb_spec v c) as [-> | N].
  - apply String.eqb_refl.
  - apply String.eqb_neq; intro H.
    apply N; symmetry; exact (message_SolverException_injective global c v H).
Qed.

(** ** Sequencing *)

Section Sequencing.
Context {St : Type}.

Lemma bind_ret_l : forall (A B : Type) (a : A) (f : A -> M St B) s,
  (x <- ret a ;; f x) s = f a s.
Proof. reflexivity. Qed.

Lemma bind_ret_r : forall (A : Type) (m : M St A) s,
  (x <- m ;; ret x) s = m s.
Proof.
  intros A m s; unfold bind, ret.
  destruct (m s) as [[a | e |] s']; reflexivity.
Qed.

Lemma bind_assoc :
  forall (A B C : Type) (m : M St A) (f : A -> M St B) (g : B -> M St C) s,
    (y <- (x <- m ;; f x) ;; g y) s = (x <- m ;; y <- f x ;; g y) s.
Proof.
  intros A B C m f g s; unfold bind.
  destruct (m s) as [[a | e |] s']; reflexivity.
Qed.

(** Nothing placed after an abort or a throw runs. *)
Lemma abort_cuts : forall (k : M St unit) s, (std_abort ;; k) s = (Aborted, s).
Proof. reflexivity. Qed.

Lemma throw_cuts : forall e (k : M St unit) s,
  (cxx_throw e ;; k) s = (Thrown e, s).
Proof. reflexivity. Qed.

(** ** Handler selection *)

Lemma select_handler_first :
  forall (hs : list (handler St)) e i d h,
    nth_error hs i = Some (d, h) ->
    catch_matches d e = true ->
    (forall j d' h', j < i -> nth_error hs j = Some (d', h') ->
                     catch_matches d' e = false) ->
    select_handler hs e = Some h.
Proof.
  induction hs as [| [d0 h0] hs IH]; intros e i d h Hn Hm Hbefore.
  - destruct i; discriminate Hn.
  - destruct i as [| i]; simpl in Hn |- *.
    + inversion Hn; subst; now rewrite Hm.
    + rewrite (Hbefore 0 d0 h0 (Nat.lt_0_succ i) eq_refl).
      apply (IH e i d h Hn Hm).
      intros j d' h' Hj Hnj.
      apply (Hbefore (S j) d' h'); [ lia | exact Hnj ].
Qed.

Lemma select_handler_none :
  forall (hs : list (handler St)) e,
    existsb (fun h => catch_matches (fst h) e) hs = false ->
    select_handler hs e = None.
Proof.
  induction hs as [| [d0 h0] hs IH]; intros e H; simpl in *.
  - reflexivity.
  - apply orb_false_iff in H as [H0 H1]; rewrite H0; now apply IH.
Qed.

(** Among handlers of which one matches, there is a first that does. *)
Lemma first_matching_handler :
  forall (hs : list (handler St)) e i0 d0 h0,
    nth_error hs i0 = Some (d0, h0) ->
    catch_matches d0 e = true ->
    exists i d h,
      i <= i0
      /\ nth_error hs i = Some (d, h)
      /\ catch_matches d e = true
      /\ forall j d' h', j < i -> nth_error hs j = Some (d', h') ->
                         catch_matches d' e = false.
Proof.
  induction hs as [| [d1 h1] hs IH]; intros e i0 d0 h0 Hn Hm.
  - destruct i0; discriminate Hn.
  - destruct (catch_matches d1 e) eqn:E1.
    + exists 0, d1, h1; repeat split; [ lia | exact E1 | ].
      intros j d' h' Hj; inversion Hj.
    + destruct i0 as [| i0]; simpl in Hn.
      * inversion Hn; subst; congruence.
      * destruct (IH e i0 d0 h0 Hn Hm) as (i & d & h & Hle & Hi & Hmi & Hb).
        exists (S i), d, h; repeat split; [ lia | exact Hi | exact Hmi | ].
        intros [| j] d' h' Hj Hnj; simpl in Hnj.
        -- inversion Hnj; subst; exact E1.
        -- apply (Hb j d' h'); [ lia | exact Hnj ].
Qed.

Lemma nth_error_announce_from :
  forall (enter : nat -> M St unit) (hs : list (handler St)) k i d h,
    nth_error hs i = Some (d, h) ->
    nth_error (announce_from enter k hs) i
    = Some (d, fun e => enter (k + i) ;; h e).
Proof.
  intros enter; induction hs as [| [d0 h0] hs IH]; intros k i d h H.
  - destruct i; discriminate H.
  - destruct i as [| i]; simpl in H |- *.
    + inversion H; subst; now rewrite Nat.add_0_r.
    + rewrite (IH (S k) i d h H).
      replace (S k + i) with (k + S i) by lia; reflexivity.
Qed.

Lemma nth_error_announce_from_inv :
  forall (enter : nat -> M St unit) (hs : list (handler St)) k j d' h',
    nth_error (announce_from enter k hs) j = Some (d', h') ->
    exists h, nth_error hs j = Some (d', h).
Proof.
  intros enter; induction hs as [| [d0 h0] hs IH]; intros k j d' h' H.
  - destruct j; discriminate H.
  - destruct j as [| j]; simpl in H |- *.
    + inversion H; subst; now exists h0.
    + exact (IH (S k) j d' h' H).
Qed.

(** ** The macros, expansion by expansion *)

Lemma libmesh_catch_disabled_skips :
  forall (hs : list (libmesh_handler St false)) s,
    libmesh_catch_disabled hs s = (Normal tt, s).
Proof.
  induction hs as [| h hs IH]; intro s; [ reflexivity | ].
  simpl; unfold bind, cxx_if, ret; apply IH.
Qed.

Lemma libmesh_try_disabled :
  forall (body : M St unit) (hs : list (libmesh_handler St false)) s,
    libmesh_try false body hs s = body s.
Proof.
  intros body hs s; unfold libmesh_try, bind.
  destruct (body s) as [[[] | e |] s']; try reflexivity.
  apply libmesh_catch_disabled_skips.
Qed.

(** With exceptions, a raise in the block that follows a normally ending
    [pre] and whose operand evaluates to [e] hands [e] to the first
    matching handler, in the state left by [pre] and the operand. *)
Lemma libmesh_try_dispatch :
  forall (pre post : M St unit) (mk : M St exception_object)
         (hs : list (libmesh_handler St true)) s s1 s2 e i d h,
    pre s = (Normal tt, s1) ->
    mk s1 = (Normal e, s2) ->
    nth_error hs i = Some (d, h) ->
    catch_matches d e = true ->
    (forall j d' h', j < i -> nth_error hs j = Some (d', h') ->
                     catch_matches d' e = false) ->
    libmesh_try true (pre ;; LIBMESH_THROW true mk ;; post) hs s = h e s2.
Proof.
  intros pre post mk hs s s1 s2 e i d h Hpre Hmk Hn Hm Hb.
  unfold libmesh_try, cxx_try, LIBMESH_THROW, bind, cxx_throw.
  rewrite Hpre, Hmk.
  now rewrite (select_handler_first hs e i d h Hn Hm Hb).
Qed.

(** With exceptions and no matching handler the exception leaves the
    try-block. *)
Lemma libmesh_try_no_match :
  forall (mk : M St exception_object)
         (hs : list (libmesh_handler St true)) s e s1,
    mk s = (Normal e, s1) ->
    existsb (fun h => catch_matches (fst h) e) hs = false ->
    libmesh_try true (LIBMESH_THROW true mk) hs s = (Thrown e, s1).
Proof.
  intros mk hs s e s1 Hmk H.
  unfold libmesh_try, cxx_try, LIBMESH_THROW, bind, cxx_throw.
  now rewrite Hmk, (select_handler_none hs e H).
Qed.

End Sequencing.

(** ** Capability roots *)

Example FileError_under_runtime_root :
  catch_matches (catch_type std_runtime_error) (new_FileError "a") = true
  /\ catch_matches (catch_type std_logic_error) (new_FileError "a") = false.
Proof. split; reflexivity. Qed.

Example NotImplemented_under_logic_root :
  catch_matches (catch_type std_logic_error) new_NotImplemented = true
  /\ catch_matches (catch_type std_runtime_error) new_NotImplemented = false.
Proof. split; reflexivity. Qed.



(** ** Without exceptions *)

Example disabled_raise_in_guarded_block :
  libmesh_try false
    (emit 1 ;; LIBMESH_THROW false (emit 99 ;; ret (new_FileError "a")) ;;
     emit 2)
    [(catch_type FileError, fun _ => emit 3); (catch_all, fun _ => emit 4)] []
  = (Aborted, [1]).
Proof. reflexivity. Qed.

Example enabled_raise_in_guarded_block :
  libmesh_try true
    (emit 1 ;; LIBMESH_THROW true (emit 99 ;; ret (new_FileError "a")) ;;
     emit 2)
    [(catch_type FileError, fun _ => emit 3); (catch_all, fun _ => emit 4)] []
  = (Normal tt, [1; 99; 3]).
Proof. reflexivity. Qed.

(** C2. Without [LIBMESH_ENABLE_EXCEPTIONS], [LIBMESH_THROW] aborts on
    the spot: the operand is not evaluated (the state is the one the raise
    was reached in, whatever the operand would have done), nothing after
    the raise runs, and the process ends killed.  The handlers written
    after a [libmesh_try] block are dead code: the statement behaves as its
    bare block, whatever the handlers are. *)
Theorem disabled_raise_aborts_and_handlers_are_dead :
  forall (St : Type) (mk : M St exception_object)
         (pre post body : M St unit)
         (hs : list (libmesh_handler St false)) (s : St),
    LIBMESH_THROW false mk s = (Aborted, s)
    /\ libmesh_try false body hs s = body s
    /\ libmesh_try false (pre ;; LIBMESH_THROW false mk ;; post) hs s
       = (pre ;; std_abort) s
    /\ (forall s1, pre s = (Normal tt, s1) ->
          libmesh_try false (pre ;; LIBMESH_THROW false mk ;; post) hs s
          = (Aborted, s1)
          /\ run_process
               (libmesh_try false (pre ;; LIBMESH_THROW false mk ;; post) hs) s
             = (killed_by_abort, s1)).
Proof.
  intros St mk pre post body hs s.
  split; [ reflexivity | ].
  split; [ apply libmesh_try_disabled | ].
  assert (E : libmesh_try false (pre ;; LIBMESH_THROW false mk ;; post) hs s
              = (pre ;; std_abort) s).
  { rewrite libmesh_try_disabled.
    unfold bind, LIBMESH_THROW, std_abort.
    destruct (pre s) as [[[] | e |] s']; reflexivity. }
  split; [ exact E | ].
  intros s1 Hpre.
  assert (A : libmesh_try false (pre ;; LIBMESH_THROW false mk ;; post) hs s
              = (Aborted, s1)).
  { rewrite E; unfold bind; now rewrite Hpre. }
  split; [ exact A | ].
  unfold run_process; now rewrite A.
Qed.

(** ** With exceptions *)

Example base_handler_listed_first_wins :
  libmesh_try true
    (LIBMESH_THROW true (ret (new_FileError "a")))
    (announce (fun i => emit (100 + i))
       [(catch_type LogicError, fun _ => emit 1);
        (catch_type std_runtime_error, fun _ => emit 2);
        (catch_type FileError, fun _ => emit 3)]) []
  = (Normal tt, [101; 2]).
Proof. reflexivity. Qed.

Example handler_sees_caught_object :
  libmesh_try true
    (LIBMESH_THROW true (ret (new_SolverException classic_locale 7)))
    [(catch_type SolverException,
      fun e => match error_code e with
               | Some c => emit (Z.to_nat c)
               | None => ret tt
               end)] []
  = (Normal tt, [7]).
Proof. reflexivity. Qed.

Example unmatched_raise_kills_process :
  run_process
    (libmesh_try true
       (emit 1 ;; LIBMESH_THROW true (ret new_NotImplemented))
       [(catch_type std_runtime_error, fun _ => emit 2)]) []
  = (killed_by_abort, [1]).
Proof. reflexivity. Qed.

(** C5. With [LIBMESH_ENABLE_EXCEPTIONS], a raise inside a
    [libmesh_try] block that has a matching handler passes control to one
    handler, once: the statement continues as the body of the first
    matching handler, applied to the raised object and started in the
    state the raise was made in, and the rest of the block is skipped.
    When the handlers report their entry through [enter], exactly one
    entry is reported, that of this handler.  (The first matching handler
    is the given one whenever no handler listed before it matches.) *)
Theorem enabled_raise_enters_one_handler :
  forall (St : Type) (pre post : M St unit) (mk : M St exception_object)
         (hs : list (libmesh_handler St true)) (enter : nat -> M St unit)
         (s s1 s2 : St) (e : exception_object)
         (i0 : nat) (d0 : catch_decl) (h0 : exception_object -> M St unit),
    pre s = (Normal tt, s1) ->
    mk s1 = (Normal e, s2) ->
    nth_error hs i0 = Some (d0, h0) ->
    catch_matches d0 e = true ->
    exists i d h,
      i <= i0
      /\ nth_error hs i = Some (d, h)
      /\ catch_matches d e = true
      /\ (forall j d' h', j < i -> nth_error hs j = Some (d', h') ->
                          catch_matches d' e = false)
      /\ libmesh_try true (pre ;; LIBMESH_THROW true mk ;; post) hs s = h e s2
      /\ libmesh_try true (pre ;; LIBMESH_THROW true mk ;; post)
           (announce enter hs) s
         = (enter i ;; h e) s2.
Proof.
  intros St pre post mk hs enter s s1 s2 e i0 d0 h0 Hpre Hmk Hn Hm.
  destruct (first_matching_handler hs e i0 d0 h0 Hn Hm)
    as (i & d & h & Hle & Hi & Hmi & Hb).
  exists i, d, h.
  repeat (split; [ assumption | ]).
  split.
  - exact (libmesh_try_dispatch pre post mk hs s s1 s2 e i d h
             Hpre Hmk Hi Hmi Hb).
  - apply (libmesh_try_dispatch pre post mk (announce enter hs)
             s s1 s2 e i d (fun e => enter i ;; h e) Hpre Hmk).
    + exact (nth_error_announce_from enter hs 0 i d h Hi).
    + exact Hmi.
    + intros j d' h' Hj Hnj.
      apply nth_error_announce_from_inv in Hnj as [h'' Hnj].
      exact (Hb j d' h'' Hj Hnj).
Qed.

Lemma enabled_raise_enters_one_handler_witness :
  exists i d h,
    i <= 2
    /\ nth_error [(catch_type LogicError, fun _ : exception_object => emit 1);
                  (catch_type SolverException, fun _ : exception_object => emit 2);
                  (catch_type FileError, fun _ : exception_object => emit 3)] i = Some (d, h)
    /\ catch_matches d (new_FileError "missing.dat") = true
    /\ (forall j d' h', j < i ->
          nth_error [(catch_type LogicError, fun _ : exception_object => emit 1);
                     (catch_type SolverException, fun _ : exception_object => emit 2);
                     (catch_type FileError, fun _ : exception_object => emit 3)] j
          = Some (d', h') ->
          catch_matches d' (new_FileError "missing.dat") = false)
    /\ libmesh_try true
         (emit 10 ;;
          LIBMESH_THROW true (ret (new_FileError "missing.dat")) ;;
          emit 11)
         [(catch_type LogicError, fun _ : exception_object => emit 1);
          (catch_type SolverException, fun _ : exception_object => emit 2);
          (catch_type FileError, fun _ : exception_object => emit 3)] []
       = h (new_FileError "missing.dat") [10]
    /\ libmesh_try true
         (emit 10 ;;
          LIBMESH_THROW true (ret (new_FileError "missing.dat")) ;;
          emit 11)
         (announce (fun i => emit (100 + i))
            [(catch_type LogicError, fun _ : exception_object => emit 1);
             (catch_type SolverException, fun _ : exception_object => emit 2);
             (catch_type FileError, fun _ : exception_object => emit 3)]) []
       = (emit (100 + i) ;; h (new_FileError "missing.dat")) [10].
Proof.
  apply (enabled_raise_enters_one_handler log
           (emit 10) (emit 11) (ret (new_FileError "missing.dat"))
           [(catch_type LogicError, fun _ : exception_object => emit 1);
            (catch_type SolverException, fun _ : exception_object => emit 2);
            (catch_type FileError, fun _ : exception_object => emit 3)]
           (fun i => emit (100 + i))
           [] [10] [10] (new_FileError "missing.dat")
           2 (catch_type FileError) (fun _ : exception_object => emit 3));
    reflexivity.
Defined.

Example nested_convergence_failure :
  libmesh_try true
    (libmesh_try true
       (emit 1 ;; LIBMESH_THROW true (ret new_ConvergenceFailure) ;;
        emit 2)
       [(catch_type ConvergenceFailure, fun _ => emit 3)] ;;
     emit 4)
    [(catch_type std_runtime_error, fun _ => emit 5)] []
  = (Normal tt, [1; 3; 4]).
Proof. reflexivity. Qed.

Example outer_root_handler_alone :
  libmesh_try true
    (libmesh_try true
       (emit 1 ;; LIBMESH_THROW true (ret new_ConvergenceFailure) ;;
        emit 2)
       [(catch_type LogicError, fun _ => emit 3)] ;;
     emit 4)
    [(catch_type std_runtime_error, fun _ => emit 5)] []
  = (Normal tt, [1; 5]).
Proof. reflexivity. Qed.

(** C6. With [LIBMESH_ENABLE_EXCEPTIONS], take a try-block whose handler
    names [ConvergenceFailure], nested in a try-block whose handler names
    [std::runtime_error].  A [ConvergenceFailure] raised in the inner
    block is taken by the inner handler, although the outer handler
    matches it too; once the inner handler has run to its end, the outer
    block carries on after the inner statement, and the outer handler has
    not run: the final state is the one the inner handler left, whatever
    the outer handler would do. *)
Theorem nested_raise_stops_at_inner_handler :
  forall (St : Type) (pre post rest : M St unit)
         (mk : M St exception_object) (e : exception_object)
         (h_inner h_outer : exception_object -> M St unit)
         (s s1 s2 s3 : St),
    pre s = (Normal tt, s1) ->
    mk s1 = (Normal e, s2) ->
    class_of e = ConvergenceFailure ->
    h_inner e s2 = (Normal tt, s3) ->
    let inner :=
      libmesh_try true
        (pre ;; LIBMESH_THROW true mk ;; post)
        [(catch_type ConvergenceFailure, h_inner)] in
    catch_matches (catch_type std_runtime_error) e = true
    /\ inner s = h_inner e s2
    /\ libmesh_try true inner [(catch_type std_runtime_error, h_outer)] s
       = (Normal tt, s3)
    /\ libmesh_try true (inner ;; rest)
         [(catch_type std_runtime_error, h_outer)] s
       = libmesh_try true rest [(catch_type std_runtime_error, h_outer)] s3.
Proof.
  intros St pre post rest mk e h_inner h_outer s s1 s2 s3
         Hpre Hmk Hcls Hin inner.
  assert (Minner : catch_matches (catch_type ConvergenceFailure) e = true)
    by (cbn [catch_matches]; now rewrite Hcls).
  assert (E : inner s = h_inner e s2).
  { apply (libmesh_try_dispatch pre post mk
             [(catch_type ConvergenceFailure, h_inner)]
             s s1 s2 e 0 (catch_type ConvergenceFailure) h_inner Hpre Hmk);
      [ reflexivity | exact Minner | ].
    intros j d' h' Hj; inversion Hj. }
  split; [ cbn [catch_matches]; now rewrite Hcls | ].
  split; [ exact E | ].
  split.
  - unfold libmesh_try at 1; unfold cxx_try; now rewrite E, Hin.
  - unfold libmesh_try, cxx_try, bind; now rewrite E, Hin.
Qed.

Lemma nested_raise_stops_at_inner_handler_witness :
  libmesh_try true
    (libmesh_try true
       (emit 1 ;; LIBMESH_THROW true (ret new_ConvergenceFailure) ;;
        emit 2)
       [(catch_type ConvergenceFailure, fun _ => emit 3)])
    [(catch_type std_runtime_error, fun _ => emit 5)] []
  = (Normal tt, [1; 3]).
Proof.
  exact (proj1 (proj2 (proj2
    (nested_raise_stops_at_inner_handler log
       (emit 1) (emit 2) (emit 4) (ret new_ConvergenceFailure)
       new_ConvergenceFailure (fun _ => emit 3) (fun _ => emit 5)
       [] [1] [1] [1; 3] eq_refl eq_refl eq_refl eq_refl)))).
Defined.

(** ** Which handlers take which classes *)

(** X5. A handler for [std::exception] takes every object the header can
    construct, and so does [catch (...)]; no other class gives a handler
    that takes them all. *)
Theorem std_exception_is_the_common_base :
  (forall e, catch_matches (catch_type std_exception) e = true)
  /\ (forall e, catch_matches catch_all e = true)
  /\ (forall T, (forall e, catch_matches (catch_type T) e = true) ->
                T = std_exception).
Proof.
  split; [ intro e; destruct e; reflexivity | ].
  split; [ reflexivity | ].
  intros T H.
  pose proof (H new_LogicError) as H1.
  pose proof (H (new_FileError "")) as H2.
  pose proof (H (new_SolverException classic_locale 0)) as H3.
  destruct T; try reflexivity; discriminate.
Qed.

(** X6. None of the seven classes derives from another of them: a
    handler naming the class of one object takes a second object exactly
    when that object is of the same class. *)
Theorem exact_class_handler_takes_only_its_class :
  forall e1 e2 : exception_object,
    catch_matches (catch_type (class_of e1)) e2 = true
    <-> class_of e2 = class_of e1.
Proof.
  intros e1 e2; split.
  - destruct e1, e2; cbn; intro H; try reflexivity; discriminate H.
  - intro H; cbn [catch_matches]; rewrite H.
    destruct e1; reflexivity.
Qed.

Section Propagation.
Context {St : Type}.

(** An exception that leaves the block of a try-block without matching
    handler leaves the try-block. *)
Lemma cxx_try_passes_unmatched :
  forall (body : M St unit) (hs : list (handler St)) s e s',
    body s = (Thrown e, s') ->
    existsb (fun h => catch_matches (fst h) e) hs = false ->
    cxx_try body hs s = (Thrown e, s').
Proof.
  intros body hs s e s' Hb Hn; unfold cxx_try.
  now rewrite Hb, (select_handler_none hs e Hn).
Qed.

Lemma raise_in_block :
  forall (pre post : M St unit) (mk : M St exception_object) s s1 s2 e,
    pre s = (Normal tt, s1) ->
    mk s1 = (Normal e, s2) ->
    (pre ;; LIBMESH_THROW true mk ;; post) s = (Thrown e, s2).
Proof.
  intros pre post mk s s1 s2 e Hpre Hmk.
  unfold LIBMESH_THROW, bind, cxx_throw; now rewrite Hpre, Hmk.
Qed.

End Propagation.

(** X7. With [LIBMESH_ENABLE_EXCEPTIONS], a raise that no handler of the
    [libmesh_try] block matches leaves the statement with the raised
    object still in flight: the state is the one the raise was made in,
    no handler body and nothing after the raise has run; if the statement
    is the whole program, the process is killed. *)
Theorem unmatched_raise_leaves_the_try_block :
  forall (St : Type) (pre post : M St unit) (mk : M St exception_object)
         (hs : list (libmesh_handler St true)) (s s1 s2 : St)
         (e : exception_object),
    pre s = (Normal tt, s1) ->
    mk s1 = (Normal e, s2) ->
    existsb (fun h => catch_matches (fst h) e) hs = false ->
    libmesh_try true (pre ;; LIBMESH_THROW true mk ;; post) hs s
    = (Thrown e, s2)
    /\ run_process
         (libmesh_try true (pre ;; LIBMESH_THROW true mk ;; post) hs) s
       = (killed_by_abort, s2).
Proof.
  intros St pre post mk hs s s1 s2 e Hpre Hmk Hno.
  assert (E : libmesh_try true (pre ;; LIBMESH_THROW true mk ;; post) hs s
              = (Thrown e, s2)).
  { apply cxx_try_passes_unmatched;
      [ exact (raise_in_block pre post mk s s1 s2 e Hpre Hmk) | exact Hno ]. }
  split; [ exact E | ].
  unfold run_process; now rewrite E.
Qed.

Lemma unmatched_raise_leaves_the_try_block_witness :
  libmesh_try true
    (emit 1 ;; LIBMESH_THROW true (ret (new_SolverException classic_locale 7)) ;;
     emit 2)
    [(catch_type std_runtime_error, fun _ : exception_object => emit 3);
     (catch_type std_logic_error, fun _ : exception_object => emit 4)] []
  = (Thrown (new_SolverException classic_locale 7), [1])
  /\ run_process
       (libmesh_try true
          (emit 1 ;; LIBMESH_THROW true (ret (new_SolverException classic_locale 7)) ;;
           emit 2)
          [(catch_type std_runtime_error, fun _ : exception_object => emit 3);
           (catch_type std_logic_error, fun _ : exception_object => emit 4)]) []
     = (killed_by_abort, [1]).
Proof.
  apply (unmatched_raise_leaves_the_try_block log
           (emit 1) (emit 2) (ret (new_SolverException classic_locale 7))
           [(catch_type std_runtime_error, fun _ : exception_object => emit 3);
            (catch_type std_logic_error, fun _ : exception_object => emit 4)]
           [] [1] [1] (new_SolverException classic_locale 7));
    reflexivity.
Defined.

(** X8. With [LIBMESH_ENABLE_EXCEPTIONS], a raise that the handlers of
    the inner of two nested [libmesh_try] blocks do not match goes on to
    the outer block: the first matching outer handler runs on the raised
    object in the state the raise was made in, and what follows the raise
    in the inner block and the inner statement in the outer block is
    skipped. *)
Theorem unmatched_raise_reaches_enclosing_block :
  forall (St : Type) (pre post rest : M St unit)
         (mk : M St exception_object)
         (hs_inner hs_outer : list (libmesh_handler St true))
         (s s1 s2 : St) (e : exception_object)
         (i : nat) (d : catch_decl) (h : exception_object -> M St unit),
    pre s = (Normal tt, s1) ->
    mk s1 = (Normal e, s2) ->
    existsb (fun h => catch_matches (fst h) e) hs_inner = false ->
    nth_error hs_outer i = Some (d, h) ->
    catch_matches d e = true ->
    (forall j d' h', j < i -> nth_error hs_outer j = Some (d', h') ->
                     catch_matches d' e = false) ->
    libmesh_try true
      (libmesh_try true (pre ;; LIBMESH_THROW true mk ;; post) hs_inner ;;
       rest)
      hs_outer s
    = h e s2.
Proof.
  intros St pre post rest mk hs_inner hs_outer s s1 s2 e i d h
         Hpre Hmk Hno Hn Hm Hb.
  assert (E : libmesh_try true (pre ;; LIBMESH_THROW true mk ;; post)
                hs_inner s = (Thrown e, s2)).
  { apply cxx_try_passes_unmatched;
      [ exact (raise_in_block pre post mk s s1 s2 e Hpre Hmk) | exact Hno ]. }
  unfold libmesh_try at 1; unfold cxx_try at 1; unfold bind at 1.
  rewrite E.
  now rewrite (select_handler_first hs_outer e i d h Hn Hm Hb).
Qed.

Lemma unmatched_raise_reaches_enclosing_block_witness :
  libmesh_try true
    (libmesh_try true
       (emit 1 ;; LIBMESH_THROW true (ret new_ConvergenceFailure) ;;
        emit 2)
       [(catch_type LogicError, fun _ : exception_object => emit 3)] ;;
     emit 4)
    [(catch_type SolverException, fun _ : exception_object => emit 5);
     (catch_type std_runtime_error, fun _ : exception_object => emit 6)] []
  = emit 6 [1].
Proof.
  apply (unmatched_raise_reaches_enclosing_block log
           (emit 1) (emit 2) (emit 4) (ret new_ConvergenceFailure)
           [(catch_type LogicError, fun _ : exception_object => emit 3)]
           [(catch_type SolverException, fun _ : exception_object => emit 5);
            (catch_type std_runtime_error,
             fun _ : exception_object => emit 6)]
           [] [1] [1] new_ConvergenceFailure
           1 (catch_type std_runtime_error) (fun _ => emit 6));
    try reflexivity.
  intros [| j] d' h' Hj Hn; [ | lia ].
  inversion Hn; reflexivity.
Defined.

(** X9. With [LIBMESH_ENABLE_EXCEPTIONS], a handler listed after a
    handler for one of its bases is never the one entered: whenever the
    later handler's class matches the raised object, the raise is taken at
    or before the base-class handler. *)
Theorem base_handler_shadows_later_derived_handler :
  forall (St : Type) (pre post : M St unit) (mk : M St exception_object)
         (hs : list (libmesh_handler St true)) (enter : nat -> M St unit)
         (s s1 s2 : St) (e : exception_object)
         (i j : nat) (B D : class)
         (hB hD : exception_object -> M St unit),
    i < j ->
    nth_error hs i = Some (catch_type B, hB) ->
    nth_error hs j = Some (catch_type D, hD) ->
    is_base_of B D = true ->
    pre s = (Normal tt, s1) ->
    mk s1 = (Normal e, s2) ->
    catch_matches (catch_type D) e = true ->
    exists i' d' h',
      i' <= i /\ i' < j
      /\ nth_error hs i' = Some (d', h')
      /\ libmesh_try true (pre ;; LIBMESH_THROW true mk ;; post) hs s
         = h' e s2
      /\ libmesh_try true (pre ;; LIBMESH_THROW true mk ;; post)
           (announce enter hs) s
         = (enter i' ;; h' e) s2.
Proof.
  intros St pre post mk hs enter s s1 s2 e i j B D hB hD
         Hij Hi Hj HBD Hpre Hmk HD.
  assert (HB : catch_matches (catch_type B) e = true)
    by exact (catch_base_covers_derived D B e HBD HD).
  destruct (first_matching_handler hs e i (catch_type B) hB Hi HB)
    as (i' & d' & h' & Hle & Hn & Hm & Hb).
  exists i', d', h'.
  split; [ exact Hle | ].
  split; [ lia | ].
  split; [ exact Hn | ].
  split.
  - exact (libmesh_try_dispatch pre post mk hs s s1 s2 e i' d' h'
             Hpre Hmk Hn Hm Hb).
  - apply (libmesh_try_dispatch pre post mk (announce enter hs)
             s s1 s2 e i' d' (fun e => enter i' ;; h' e) Hpre Hmk).
    + exact (nth_error_announce_from enter hs 0 i' d' h' Hn).
    + exact Hm.
    + intros k d'' h'' Hk Hnk.
      apply nth_error_announce_from_inv in Hnk as [h3 Hnk].
      exact (Hb k d'' h3 Hk Hnk).
Qed.

Lemma base_handler_shadows_later_derived_handler_witness :
  exists i' d' h',
    i' <= 0 /\ i' < 1
    /\ nth_error
         [(catch_type std_runtime_error, fun _ : exception_object => emit 1);
          (catch_type FileError, fun _ : exception_object => emit 2)] i'
       = Some (d', h')
    /\ libmesh_try true
         (emit 10 ;; LIBMESH_THROW true (ret (new_FileError "a")) ;;
          emit 11)
         [(catch_type std_runtime_error, fun _ : exception_object => emit 1);
          (catch_type FileError, fun _ : exception_object => emit 2)] []
       = h' (new_FileError "a") [10]
    /\ libmesh_try true
         (emit 10 ;; LIBMESH_THROW true (ret (new_FileError "a")) ;;
          emit 11)
         (announce (fun n => emit (100 + n))
            [(catch_type std_runtime_error,
              fun _ : exception_object => emit 1);
             (catch_type FileError, fun _ : exception_object => emit 2)]) []
       = (emit (100 + i') ;; h' (new_FileError "a")) [10].
Proof.
  apply (base_handler_shadows_later_derived_handler log
           (emit 10) (emit 11) (ret (new_FileError "a"))
           [(catch_type std_runtime_error, fun _ : exception_object => emit 1);
            (catch_type FileError, fun _ : exception_object => emit 2)]
           (fun n => emit (100 + n))
           [] [10] [10] (new_FileError "a")
           0 1 std_runtime_error FileError
           (fun _ => emit 1) (fun _ => emit 2));
    first [ reflexivity | lia ].
Defined.

(** X10. An exception a handler body raises is not offered to the other
    handlers of the same [libmesh_try]: it leaves the statement, and the
    first matching handler of the enclosing [libmesh_try] takes it. *)
Theorem raise_in_handler_goes_to_enclosing_block :
  forall (St : Type) (pre post rest : M St unit)
         (mk : M St exception_object)
         (hs hs_outer : list (libmesh_handler St true))
         (s s1 s2 s3 : St) (e e2 : exception_object)
         (i : nat) (d : catch_decl) (h : exception_object -> M St unit)
         (j : nat) (d2 : catch_decl) (h2 : exception_object -> M St unit),
    pre s = (Normal tt, s1) ->
    mk s1 = (Normal e, s2) ->
    nth_error hs i = Some (d, h) ->
    catch_matches d e = true ->
    (forall k d' h', k < i -> nth_error hs k = Some (d', h') ->
                     catch_matches d' e = false) ->
    h e s2 = (Thrown e2, s3) ->
    nth_error hs_outer j = Some (d2, h2) ->
    catch_matches d2 e2 = true ->
    (forall k d' h', k < j -> nth_error hs_outer k = Some (d', h') ->
                     catch_matches d' e2 = false) ->
    libmesh_try true (pre ;; LIBMESH_THROW true mk ;; post) hs s
    = (Thrown e2, s3)
    /\ libmesh_try true
         (libmesh_try true (pre ;; LIBMESH_THROW true mk ;; post) hs ;; rest)
         hs_outer s
       = h2 e2 s3.
Proof.
  intros St pre post rest mk hs hs_outer s s1 s2 s3 e e2 i d h j d2 h2
         Hpre Hmk Hn Hm Hb Hh Hn2 Hm2 Hb2.
  assert (E : libmesh_try true (pre ;; LIBMESH_THROW true mk ;; post) hs s
              = (Thrown e2, s3)).
  { rewrite (libmesh_try_dispatch pre post mk hs s s1 s2 e i d h
               Hpre Hmk Hn Hm Hb).
    exact Hh. }
  split; [ exact E | ].
  unfold libmesh_try at 1; unfold cxx_try at 1; unfold bind at 1.
  rewrite E.
  now rewrite (select_handler_first hs_outer e2 j d2 h2 Hn2 Hm2 Hb2).
Qed.

Lemma raise_in_handler_goes_to_enclosing_block_witness :
  libmesh_try true
    (emit 1 ;; LIBMESH_THROW true (ret (new_FileError "a")) ;; emit 2)
    [(catch_type FileError,
      fun _ : exception_object =>
        emit 3 ;; LIBMESH_THROW true (ret new_NotImplemented));
     (catch_type std_logic_error, fun _ : exception_object => emit 4)] []
  = (Thrown new_NotImplemented, [1; 3])
  /\ libmesh_try true
       (libmesh_try true
          (emit 1 ;; LIBMESH_THROW true (ret (new_FileError "a")) ;;
           emit 2)
          [(catch_type FileError,
            fun _ : exception_object =>
              emit 3 ;; LIBMESH_THROW true (ret new_NotImplemented));
           (catch_type std_logic_error, fun _ : exception_object => emit 4)] ;;
        emit 5)
       [(catch_type NotImplemented, fun _ : exception_object => emit 6)] []
     = emit 6 [1; 3].
Proof.
  apply (raise_in_handler_goes_to_enclosing_block log
           (emit 1) (emit 2) (emit 5) (ret (new_FileError "a"))
           [(catch_type FileError,
             fun _ : exception_object =>
               emit 3 ;; LIBMESH_THROW true (ret new_NotImplemented));
            (catch_type std_logic_error, fun _ : exception_object => emit 4)]
           [(catch_type NotImplemented, fun _ : exception_object => emit 6)]
           [] [1] [1] [1; 3] (new_FileError "a") new_NotImplemented
           0 (catch_type FileError)
           (fun _ => emit 3 ;; LIBMESH_THROW true (ret new_NotImplemented))
           0 (catch_type NotImplemented) (fun _ => emit 6));
    try reflexivity;
    intros k d' h' Hk; inversion Hk.
Defined.

(** ** The two builds side by side *)

(** X11. In either build [LIBMESH_THROW] does not fall through: it never
    ends normally, so a statement placed after it in the same block adds
    nothing. *)
Theorem raise_never_falls_through :
  forall (St : Type) (LIBMESH_ENABLE_EXCEPTIONS : bool)
         (mk : M St exception_object) (post : M St unit) (s : St),
    (forall a s', LIBMESH_THROW LIBMESH_ENABLE_EXCEPTIONS mk s
                  <> (Normal a, s'))
    /\ (LIBMESH_THROW LIBMESH_ENABLE_EXCEPTIONS mk ;; post) s
       = LIBMESH_THROW LIBMESH_ENABLE_EXCEPTIONS mk s.
Proof.
  intros St en mk post s.
  destruct en; unfold LIBMESH_THROW, bind, cxx_throw, std_abort.
  - destruct (mk s) as [[x | e |] s1]; split;
      first [ reflexivity | intros a s'; discriminate ].
  - split; [ intros a s'; discriminate | reflexivity ].
Qed.

(** X12. Written as a statement of its own among the statements of a
    block, a [libmesh_try] whose block lets no exception out behaves as
    the bare block in either build: the handlers play no part. *)
Theorem try_without_exception_is_its_block :
  forall (St : Type) (LIBMESH_ENABLE_EXCEPTIONS : bool) (body : M St unit)
         (hs : list (libmesh_handler St LIBMESH_ENABLE_EXCEPTIONS)) (s : St),
    (forall e s', body s <> (Thrown e, s')) ->
    libmesh_try LIBMESH_ENABLE_EXCEPTIONS body hs s = body s.
Proof.
  intros St en body hs s H.
  destruct en.
  - unfold libmesh_try, cxx_try.
    destruct (body s) as [[a | e |] s'] eqn:E; try reflexivity.
    now elim (H e s').
  - apply libmesh_try_disabled.
Qed.

Lemma try_without_exception_is_its_block_witness :
  libmesh_try true (emit 1 ;; emit 2)
    [(catch_all, fun _ : exception_object => emit 3)] []
  = (emit 1 ;; emit 2) [].
Proof.
  apply (try_without_exception_is_its_block log true (emit 1 ;; emit 2)
           [(catch_all, fun _ : exception_object => emit 3)] []).
  intros e s'; discriminate.
Defined.

Example dangling_else_differs_between_builds :
  if_libmesh_try_else true true (emit 1) (catch_all, fun _ => emit 2) (emit 3) []
  = (Normal tt, [1])
  /\ if_libmesh_try_else false true (emit 1) (catch_all, fun _ => emit 2)
       (emit 3) []
     = (Normal tt, [1; 3]).
Proof. split; reflexivity. Qed.

(** X13. Written without braces as the sub-statement of
    [if (c) ... else { alt }], the construct is not the same statement in
    the two builds.  With exceptions [alt] runs exactly when [c] is false.
    Without, the [else] belongs to the [if (0)] that [libmesh_catch]
    leaves: whenever the guarded block ends normally or is skipped, [alt]
    runs after it, also when [c] is true. *)
Theorem unbraced_try_takes_the_else :
  forall (St : Type) (body alt : M St unit)
         (h_on : libmesh_handler St true) (h_off : libmesh_handler St false)
         (s s' : St),
    body s = (Normal tt, s') ->
    if_libmesh_try_else true true body h_on alt s = (Normal tt, s')
    /\ if_libmesh_try_else true false body h_on alt s = alt s
    /\ if_libmesh_try_else false true body h_off alt s = alt s'
    /\ if_libmesh_try_else false false body h_off alt s = alt s.
Proof.
  intros St body alt h_on h_off s s' Hb.
  unfold if_libmesh_try_else, cxx_if_else, cxx_if, cxx_try, bind, ret.
  rewrite Hb; repeat split.
Qed.

Lemma unbraced_try_takes_the_else_witness :
  if_libmesh_try_else true true (emit 1)
    (catch_all, fun _ : exception_object => emit 2) (emit 3) []
  = (Normal tt, [1])
  /\ if_libmesh_try_else true false (emit 1)
       (catch_all, fun _ : exception_object => emit 2) (emit 3) []
     = emit 3 []
  /\ if_libmesh_try_else false true (emit 1)
       (catch_all, fun _ : unit => emit 2) (emit 3) []
     = emit 3 [1]
  /\ if_libmesh_try_else false false (emit 1)
       (catch_all, fun _ : unit => emit 2) (emit 3) []
     = emit 3 [].
Proof.
  apply (unbraced_try_takes_the_else log (emit 1) (emit 3)
           (catch_all, fun _ : exception_object => emit 2)
           (catch_all, fun _ : unit => emit 2) [] [1]).
  reflexivity.
Defined.
